(** * Influent Generator API: the sampler and its three HTTP routes

    A shallow embedding of [influent_API.py] and [influent_api.py], the two
    variants of the FastAPI service that returns random influent (raw
    wastewater) samples, and the properties of the sampler and of the routes.

    Conventions of the embedding.
    - A Python [int] is a [Z].  A finite Python [float] is the rational [Q] it
      denotes.  The float that [round(value, 1)] returns is the double nearest
      to a one-decimal number; it is identified with that decimal, which is
      also what its [repr], and so the JSON body, prints.
    - The process-wide generator of the [random] module is an explicit state
      [rng], threaded through every call; [random.uniform] is an operation of
      the [RandomSource] interface.
    - A Python exception is the [Raise] result of the monad [M].
    - The two files agree word for word on [INFLUENT_RANGES], on the models
      [Influent] and [InfluentBatch] and on [generate_influent], [root] and
      [get_single_influent]; these are embedded once.  What differs, the
      batch route and the [HEAD /] route, is in the modules [influent_API]
      and [influent_api]. *)

From Stdlib Require Import ZArith QArith Qround Qpower Qabs Lia Lqa.
From stdpp Require Import base strings list gmap.

Local Open Scope string_scope.
Local Open Scope Z_scope.
Local Open Scope Q_scope.

(** ** Python's built-in [round] *)

(** [round(value)]: the nearest integer, a tie going to the even one. *)
Definition round_half_even (value : Q) : Z :=
  let f := Qfloor value in
  match (value - inject_Z f ?= 1 # 2)%Q with
  | Lt => f
  | Gt => f + 1
  | Eq => if Z.even f then f else f + 1
  end%Z.

(** [round(value, ndigits)]: the nearest multiple of [10 ** -ndigits], a tie
    going to the even multiple. *)
Definition round_ndigits (value : Q) (ndigits : Z) : Q :=
  inject_Z (round_half_even (value * 10 ^ ndigits)) / 10 ^ ndigits.

(** Half a unit in the last place kept by [round(value, ndigits)]. *)
Definition half_unit (ndigits : Z) : Q := (1 # 2) / 10 ^ ndigits.

(** ** The shared random source *)

(** The generator behind the [random] module: its state, and
    [random.uniform(a, b)], which returns the draw and the next state. *)
Class RandomSource := {
  rng : Type;
  uniform : Q -> Q -> rng -> Q * rng
}.

(** What the claims assume of a draw: it lies in the closed interval. *)
Definition uniform_in_range `{RandomSource} : Prop :=
  forall (a b : Q) (s : rng), a <= b -> a <= (uniform a b s).1 <= b.

(** ** Exceptions and the state monad of a request *)

Inductive exn : Type :=
  | KeyError (key : string).

Inductive result (A : Type) : Type :=
  | Ok (a : A)
  | Raise (e : exn).

Arguments Ok {A} a.
Arguments Raise {A} e.

Section Monad.
Context `{RandomSource}.

Definition M (A : Type) : Type := rng -> result A * rng.

Definition ret {A : Type} (a : A) : M A := fun s => (Ok a, s).

Definition raise {A : Type} (e : exn) : M A := fun s => (Raise e, s).

Definition bind {A B : Type} (m : M A) (k : A -> M B) : M B :=
  fun s =>
    match m s with
    | (Ok a, s') => k a s'
    | (Raise e, s') => (Raise e, s')
    end.

(** [random.uniform(low, high)] on the shared generator. *)
Definition random_uniform (low high : Q) : M Q :=
  fun s => let (value, s') := uniform low high s in (Ok value, s').
End Monad.

Notation "x <- m ;; k" := (bind m (fun x => k))
  (at level 20, m at level 99, k at level 200, only parsing).
Notation "' pat <- m ;; k" := (bind m (fun x => match x with pat => k end))
  (at level 20, pat pattern, m at level 99, k at level 200, only parsing).

(** ** Data model ([INFLUENT_RANGES], [Influent], [InfluentBatch]) *)

Definition INFLUENT_RANGES : gmap string (Q * Q) :=
  list_to_map
    [ ("flow_m3_h", (20, 500));
      ("temp_C", (10, 35));
      ("pH", (6.0, 8.5));
      ("TSS_in_mgL", (80, 800));
      ("BOD_in_mgL", (100, 500));
      ("COD_in_mgL", (200, 1000));
      ("oil_grease_in_mgL", (1, 50));
      ("turbidity_in_NTU", (20, 500)) ].

Record Influent : Type := {
  flow_m3_h : Q;
  temp_C : Q;
  pH : Q;
  TSS_in_mgL : Q;
  BOD_in_mgL : Q;
  COD_in_mgL : Q;
  oil_grease_in_mgL : Q;
  turbidity_in_NTU : Q
}.

Record InfluentBatch : Type := {
  count : Z;
  influents : list Influent
}.

(** A Python number: [round(value)] returns an [int], [round(value, 1)] a
    [float]. *)
Inductive number : Type :=
  | Int (z : Z)
  | Float (q : Q).

(** The coercion of a [float] field of a pydantic model. *)
Definition to_float (x : number) : Q :=
  match x with
  | Int z => inject_Z z
  | Float q => q
  end.

(** ** The sampler *)

Section Sampler.
Context `{RandomSource}.

(** [d[key]] *)
Definition getitem {V : Type} (d : gmap string V) (key : string) : M V :=
  match d !! key with
  | Some v => ret v
  | None => raise (KeyError key)
  end.

(** The local function [rand] of [generate_influent]. *)
Definition rand (low high : Q) (decimals : Z) : M number :=
  value <- random_uniform low high ;;
  if (decimals =? 0)%Z then ret (Int (round_half_even value))
  else ret (Float (round_ndigits value decimals)).

(** The keyword arguments are evaluated from left to right; each one
    subscripts the table, unpacks the pair and calls [rand]. *)
Definition generate_influent : M Influent :=
  '(lo, hi) <- getitem INFLUENT_RANGES "flow_m3_h" ;;
  flow <- rand lo hi 0 ;;
  '(lo, hi) <- getitem INFLUENT_RANGES "temp_C" ;;
  temp <- rand lo hi 1 ;;
  '(lo, hi) <- getitem INFLUENT_RANGES "pH" ;;
  ph <- rand lo hi 1 ;;
  '(lo, hi) <- getitem INFLUENT_RANGES "TSS_in_mgL" ;;
  tss <- rand lo hi 1 ;;
  '(lo, hi) <- getitem INFLUENT_RANGES "BOD_in_mgL" ;;
  bod <- rand lo hi 1 ;;
  '(lo, hi) <- getitem INFLUENT_RANGES "COD_in_mgL" ;;
  cod <- rand lo hi 1 ;;
  '(lo, hi) <- getitem INFLUENT_RANGES "oil_grease_in_mgL" ;;
  oil <- rand lo hi 1 ;;
  '(lo, hi) <- getitem INFLUENT_RANGES "turbidity_in_NTU" ;;
  turb <- rand lo hi 1 ;;
  ret {| flow_m3_h := to_float flow;
         temp_C := to_float temp;
         pH := to_float ph;
         TSS_in_mgL := to_float tss;
         BOD_in_mgL := to_float bod;
         COD_in_mgL := to_float cod;
         oil_grease_in_mgL := to_float oil;
         turbidity_in_NTU := to_float turb |}.

(** [[call() for _ in range(n)]] *)
Fixpoint list_comprehension {A : Type} (call : M A) (n : nat) : M (list A) :=
  match n with
  | O => ret []
  | S n' =>
      x <- call ;;
      xs <- list_comprehension call n' ;;
      ret (x :: xs)
  end.
End Sampler.

(** ** The HTTP facade *)

Inductive http_method : Type := GET | HEAD | POST | PUT | DELETE.

#[global] Instance http_method_eq_dec : EqDecision http_method.
Proof. solve_decision. Defined.

(** The query parameter [n] as the request carries it. *)
Inductive param : Type :=
  | Absent
  | Given (n : Z)
  | Malformed (raw : string).

Record Request : Type := {
  method : http_method;
  path : string;
  query_n : param
}.

Inductive content : Type :=
  | Empty
  | Health (fields : list (string * string))
  | Sample (x : Influent)
  | Batch (b : InfluentBatch)
  | ValidationError
  | Detail (msg : string).

Record Response : Type := {
  status_code : Z;
  body : content
}.

Section Facade.
Context `{RandomSource}.

Definition endpoint : Type := param -> rng -> Response * rng.

Record route : Type := {
  route_method : http_method;
  route_path : string;
  route_endpoint : endpoint
}.

(** The framework around a path operation function: its value is the body
    of a 200 response, an exception that escapes it a 500 response. *)
Definition respond {A : Type} (wrap : A -> content) (view : M A)
  : rng -> Response * rng :=
  fun s =>
    match view s with
    | (Ok a, s') => ({| status_code := 200; body := wrap a |}, s')
    | (Raise _, s') =>
        ({| status_code := 500; body := Detail "Internal Server Error" |}, s')
    end.

(** The response object the framework passes to a path operation function
    that declares a [Response] parameter: it has no body, and it is taken
    here with the status code that the route declares. *)
Definition injected_response (declared : Z) : Response :=
  {| status_code := declared; body := Empty |}.

(** A query parameter that fails its declared type or bounds. *)
Definition unprocessable : rng -> Response * rng :=
  fun s => ({| status_code := 422; body := ValidationError |}, s).

Definition full_match (req : Request) (r : route) : bool :=
  bool_decide (route_path r = path req)
  && bool_decide (route_method r = method req).

Definition path_match (req : Request) (r : route) : bool :=
  bool_decide (route_path r = path req).

(** The router: the first route that matches path and method serves the
    request; a path that is routed for other methods only is answered 405,
    an unknown path 404.  The routes are those the file declares: the
    documentation pages of the framework and its redirect of a trailing
    slash are left out. *)
Definition dispatch (routes : list route) (req : Request)
  : rng -> Response * rng :=
  match List.find (full_match req) routes with
  | Some r => route_endpoint r (query_n req)
  | None =>
      if existsb (path_match req) routes
      then fun s => ({| status_code := 405; body := Detail "Method Not Allowed" |}, s)
      else fun s => ({| status_code := 404; body := Detail "Not Found" |}, s)
  end.

(** The path operation functions that the two files share word for word. *)

Definition root : M (list (string * string)) :=
  ret [ ("status", "ok");
        ("message", "Influent Generator API is running.") ].

Definition get_single_influent : M Influent := generate_influent.
End Facade.

(** *** [influent_API.py]: the count is clamped *)

Module influent_API.
Section App.
Context `{RandomSource}.

Definition get_batch_influent (n : Z) : M InfluentBatch :=
  let n := Z.max 1 (Z.min n 100) in
  samples <- list_comprehension generate_influent (Z.to_nat n) ;;
  ret {| count := n; influents := samples |}.

(** [n: int = 5] *)
Definition batch_endpoint : endpoint :=
  fun q =>
    match q with
    | Absent => respond Batch (get_batch_influent 5)
    | Given n => respond Batch (get_batch_influent n)
    | Malformed _ => unprocessable
    end.

Definition routes : list route :=
  [ {| route_method := GET; route_path := "/";
       route_endpoint := fun _ => respond Health root |};
    {| route_method := GET; route_path := "/influent";
       route_endpoint := fun _ => respond Sample get_single_influent |};
    {| route_method := GET; route_path := "/influent/batch";
       route_endpoint := batch_endpoint |} ].

Definition app : Request -> rng -> Response * rng := dispatch routes.
End App.
End influent_API.

(** *** [influent_api.py]: the count is validated, and [HEAD /] is routed *)

Module influent_api.
Section App.
Context `{RandomSource}.

(** [head_root] returns the response object it is passed. *)
Definition head_root (response : Response) : Response := response.

Definition get_batch_influent (n : Z) : M InfluentBatch :=
  samples <- list_comprehension generate_influent (Z.to_nat n) ;;
  ret {| count := n; influents := samples |}.

(** [n: int = Query(default=5, ge=1, le=100)] *)
Definition batch_endpoint : endpoint :=
  fun q =>
    match q with
    | Absent => respond Batch (get_batch_influent 5)
    | Given n =>
        if ((1 <=? n) && (n <=? 100))%Z
        then respond Batch (get_batch_influent n)
        else unprocessable
    | Malformed _ => unprocessable
    end.

Definition routes : list route :=
  [ {| route_method := GET; route_path := "/";
       route_endpoint := fun _ => respond Health root |};
    {| route_method := HEAD; route_path := "/";
       route_endpoint := fun _ s => (head_root (injected_response 200), s) |};
    {| route_method := GET; route_path := "/influent";
       route_endpoint := fun _ => respond Sample get_single_influent |};
    {| route_method := GET; route_path := "/influent/batch";
       route_endpoint := batch_endpoint |} ].

Definition app : Request -> rng -> Response * rng := dispatch routes.
End App.
End influent_api.

(** ** A concrete random source

    A linear congruential generator: the state is the seed, and
    [uniform a b] is [a + (b - a) * u] for the fraction [u] of the seed, as
    [random.uniform] computes it from [random.random()]. *)

Definition lcg_next (seed : Z) : Z := ((1103515245 * seed + 12345) mod 2147483648)%Z.

Definition lcg_unit (seed : Z) : Q := Qmake (seed mod 2147483648)%Z 2147483648.

Definition lcg_source : RandomSource :=
  {| rng := Z;
     uniform := fun a b seed => (a + (b - a) * lcg_unit seed, lcg_next seed) |}.

(** ** Vocabulary of the properties *)

(** The value [rand] returns for a draw [value]. *)
Definition rounded (decimals : Z) (value : Q) : number :=
  if (decimals =? 0)%Z then Int (round_half_even value)
  else Float (round_ndigits value decimals).

(** The keys in the order in which [generate_influent] samples them. *)
Definition sampled_keys : list string :=
  [ "flow_m3_h"; "temp_C"; "pH"; "TSS_in_mgL"; "BOD_in_mgL"; "COD_in_mgL";
    "oil_grease_in_mgL"; "turbidity_in_NTU" ].

(** A field is within its range up to half a unit of its last decimal. *)
Definition within_tolerance (key : string) (decimals : Z) (value : Q) : Prop :=
  exists low high : Q,
    INFLUENT_RANGES !! key = Some (low, high)
    /\ low - half_unit decimals <= value <= high + half_unit decimals.

Definition sample_in_bounds (x : Influent) : Prop :=
  within_tolerance "flow_m3_h" 0 (flow_m3_h x)
  /\ within_tolerance "temp_C" 1 (temp_C x)
  /\ within_tolerance "pH" 1 (pH x)
  /\ within_tolerance "TSS_in_mgL" 1 (TSS_in_mgL x)
  /\ within_tolerance "BOD_in_mgL" 1 (BOD_in_mgL x)
  /\ within_tolerance "COD_in_mgL" 1 (COD_in_mgL x)
  /\ within_tolerance "oil_grease_in_mgL" 1 (oil_grease_in_mgL x)
  /\ within_tolerance "turbidity_in_NTU" 1 (turbidity_in_NTU x).

(** A field is within its range of the table. *)
Definition within_range (key : string) (value : Q) : Prop :=
  exists low high : Q,
    INFLUENT_RANGES !! key = Some (low, high) /\ low <= value <= high.

Definition sample_in_ranges (x : Influent) : Prop :=
  within_range "flow_m3_h" (flow_m3_h x)
  /\ within_range "temp_C" (temp_C x)
  /\ within_range "pH" (pH x)
  /\ within_range "TSS_in_mgL" (TSS_in_mgL x)
  /\ within_range "BOD_in_mgL" (BOD_in_mgL x)
  /\ within_range "COD_in_mgL" (COD_in_mgL x)
  /\ within_range "oil_grease_in_mgL" (oil_grease_in_mgL x)
  /\ within_range "turbidity_in_NTU" (turbidity_in_NTU x).

Definition root_request (m : http_method) (q : param) : Request :=
  {| method := m; path := "/"; query_n := q |}.

Definition single_request (q : param) : Request :=
  {| method := GET; path := "/influent"; query_n := q |}.

Definition batch_request (q : param) : Request :=
  {| method := GET; path := "/influent/batch"; query_n := q |}.

Definition health_response : Response :=
  {| status_code := 200;
     body := Health [ ("status", "ok");
                      ("message", "Influent Generator API is running.") ] |}.

Definition client_error (r : Response) : Prop :=
  (400 <= status_code r < 500)%Z.

(** A response of the batch route: a rejected parameter, or a batch whose
    count is the number of its samples. *)
Definition rejected_or_counted (r : Response) : Prop :=
  r = {| status_code := 422; body := ValidationError |}
  \/ exists b : InfluentBatch,
       r = {| status_code := 200; body := Batch b |}
       /\ count b = Z.of_nat (length (influents b)).

Section Vocabulary.
Context `{RandomSource}.

(** The generator after the draw for one key. *)
Definition draw (s : rng) (key : string) : rng :=
  match INFLUENT_RANGES !! key with
  | Some (low, high) => (uniform low high s).2
  | None => s
  end.

(** The generator after the eight draws of one sample. *)
Definition after_sample (s : rng) : rng := fold_left draw sampled_keys s.

(** The generator after [i] samples. *)
Definition after_samples (i : nat) (s : rng) : rng := Nat.iter i after_sample s.

(** [app] answers the batch request with parameter [q] by a batch of [n]
    samples, the sample at index [i] being the one [generate_influent]
    returns on the generator that the [i] calls before it have left. *)
Definition serves_batch (app : Request -> rng -> Response * rng)
    (q : param) (n : Z) (s : rng) : Prop :=
  exists b : InfluentBatch,
    app (batch_request q) s
      = ({| status_code := 200; body := Batch b |}, after_samples (Z.to_nat n) s)
    /\ count b = n
    /\ Z.of_nat (length (influents b)) = n
    /\ forall i : nat, (i < Z.to_nat n)%nat ->
         exists x : Influent,
           influents b !! i = Some x
           /\ generate_influent (after_samples i s)
                = (Ok x, after_samples (S i) s).

(** Both out-of-range counts are answered by a batch, clamped to a bound. *)
Definition clamps_both (app : Request -> rng -> Response * rng) (s : rng) : Prop :=
  serves_batch app (Given 0) 1 s /\ serves_batch app (Given 1000) 100 s.

(** Both out-of-range counts are answered by a client error. *)
Definition rejects_both (app : Request -> rng -> Response * rng) (s : rng) : Prop :=
  client_error (app (batch_request (Given 0)) s).1
  /\ client_error (app (batch_request (Given 1000)) s).1.
End Vocabulary.

(** ** Further vocabulary: what a response carries, and the table as a
    module global *)

(** The samples a response body carries. *)
Definition samples_of (c : content) : list Influent :=
  match c with
  | Sample x => [x]
  | Batch b => influents b
  | _ => []
  end.

Definition samples_in (c : content) : nat := length (samples_of c).

(** The status codes of the routes and of the router. *)
Definition routed_status (r : Response) : Prop :=
  status_code r = 200%Z \/ status_code r = 404%Z
  \/ status_code r = 405%Z \/ status_code r = 422%Z.

(** A number with at most one decimal: ten times it is an integer. *)
Definition one_decimal (value : Q) : Prop :=
  inject_Z (Qfloor (value * 10)) == value * 10.


(** A random source that also counts its calls of [uniform]. *)
Definition counting (R : RandomSource) : RandomSource :=
  {| rng := (@rng R * nat)%type;
     uniform := fun a b s =>
       ((@uniform R a b s.1).1, ((@uniform R a b s.1).2, S s.2)) |}.

(** A source that always draws the lower bound. *)
Definition lowest_source : RandomSource :=
  {| rng := unit; uniform := fun a _ s => (a, s) |}.


(** Every sampled key is in the table, with [low <= high]. *)
Definition well_ordered (ranges : gmap string (Q * Q)) : bool :=
  forallb (fun key => match ranges !! key with
                      | Some (low, high) => Qle_bool low high
                      | None => false
                      end)
    sampled_keys.

Definition within_tolerance_of (ranges : gmap string (Q * Q))
    (key : string) (decimals : Z) (value : Q) : Prop :=
  exists low high : Q,
    ranges !! key = Some (low, high)
    /\ low - half_unit decimals <= value <= high + half_unit decimals.

Definition sample_in_bounds_of (ranges : gmap string (Q * Q)) (x : Influent) : Prop :=
  within_tolerance_of ranges "flow_m3_h" 0 (flow_m3_h x)
  /\ within_tolerance_of ranges "temp_C" 1 (temp_C x)
  /\ within_tolerance_of ranges "pH" 1 (pH x)
  /\ within_tolerance_of ranges "TSS_in_mgL" 1 (TSS_in_mgL x)
  /\ within_tolerance_of ranges "BOD_in_mgL" 1 (BOD_in_mgL x)
  /\ within_tolerance_of ranges "COD_in_mgL" 1 (COD_in_mgL x)
  /\ within_tolerance_of ranges "oil_grease_in_mgL" 1 (oil_grease_in_mgL x)
  /\ within_tolerance_of ranges "turbidity_in_NTU" 1 (turbidity_in_NTU x).

(** The table of the file with the [pH] range adjusted to bounds that are
    not whole tenths. *)
Definition adjusted_ranges : gmap string (Q * Q) :=
  <["pH" := (6.04, 8.46)]> INFLUENT_RANGES.

Section TableAsGlobal.
Context `{RandomSource}.

(** The two answers of the router itself. *)
Definition method_not_allowed : rng -> Response * rng :=
  fun s => ({| status_code := 405; body := Detail "Method Not Allowed" |}, s).

Definition not_found : rng -> Response * rng :=
  fun s => ({| status_code := 404; body := Detail "Not Found" |}, s).

(** [generate_influent] reads the module global [INFLUENT_RANGES] when it is
    called, and the file says of the table that it can be adjusted: this is
    the body of [generate_influent] with the table it finds as a parameter. *)
Definition generate_influent_from (ranges : gmap string (Q * Q)) : M Influent :=
  '(lo, hi) <- getitem ranges "flow_m3_h" ;;
  flow <- rand lo hi 0 ;;
  '(lo, hi) <- getitem ranges "temp_C" ;;
  temp <- rand lo hi 1 ;;
  '(lo, hi) <- getitem ranges "pH" ;;
  ph <- rand lo hi 1 ;;
  '(lo, hi) <- getitem ranges "TSS_in_mgL" ;;
  tss <- rand lo hi 1 ;;
  '(lo, hi) <- getitem ranges "BOD_in_mgL" ;;
  bod <- rand lo hi 1 ;;
  '(lo, hi) <- getitem ranges "COD_in_mgL" ;;
  cod <- rand lo hi 1 ;;
  '(lo, hi) <- getitem ranges "oil_grease_in_mgL" ;;
  oil <- rand lo hi 1 ;;
  '(lo, hi) <- getitem ranges "turbidity_in_NTU" ;;
  turb <- rand lo hi 1 ;;
  ret {| flow_m3_h := to_float flow;
         temp_C := to_float temp;
         pH := to_float ph;
         TSS_in_mgL := to_float tss;
         BOD_in_mgL := to_float bod;
         COD_in_mgL := to_float cod;
         oil_grease_in_mgL := to_float oil;
         turbidity_in_NTU := to_float turb |}.
End TableAsGlobal.

Section Accounting.
Context `{RandomSource}.

(** An answer that accounts for what it carries: the generator is left after
    as many samples as the body holds, at most 100; the status is one of the
    routed ones; a batch holds between 1 and 100 samples and counts them; and
    the sample at each index is the value of its own call of
    [generate_influent]. *)
Definition well_served (f : rng -> Response * rng) : Prop :=
  forall s : rng,
    (f s).2 = after_samples (samples_in (body (f s).1)) s
    /\ (samples_in (body (f s).1) <= 100)%nat
    /\ routed_status (f s).1
    /\ (forall b : InfluentBatch, body (f s).1 = Batch b ->
          (1 <= count b <= 100)%Z /\ count b = Z.of_nat (length (influents b)))
    /\ forall (i : nat) (x : Influent),
         samples_of (body (f s).1) !! i = Some x ->
         generate_influent (after_samples i s) = (Ok x, after_samples (S i) s).

(** Two batch requests in a row, for [m] and then for [n] samples, return
    together the samples of one request for [m + n] and leave the generator
    where that request leaves it. *)
Definition batches_compose (app : Request -> rng -> Response * rng)
    (m n : Z) (s : rng) : Prop :=
  exists (xs ys : list Influent) (s1 s2 : rng),
    app (batch_request (Given m)) s
      = ({| status_code := 200;
            body := Batch {| count := m; influents := xs |} |}, s1)
    /\ app (batch_request (Given n)) s1
      = ({| status_code := 200;
            body := Batch {| count := n; influents := ys |} |}, s2)
    /\ app (batch_request (Given (m + n))) s
      = ({| status_code := 200;
            body := Batch {| count := m + n; influents := xs ++ ys |} |}, s2).

(** On the same generator, [GET /influent] returns the sample that heads the
    batch of [n]. *)
Definition single_heads_batch (app : Request -> rng -> Response * rng)
    (q : param) (n : Z) (s : rng) : Prop :=
  exists (x : Influent) (b : InfluentBatch),
    (app (single_request q) s).1 = {| status_code := 200; body := Sample x |}
    /\ (app (batch_request (Given n)) s).1
         = {| status_code := 200; body := Batch b |}
    /\ head (influents b) = Some x.
End Accounting.

(** * Properties *)

(** ** Rounding *)

Example round_half_even_down : round_half_even (5 # 2) = 2%Z.
Proof. reflexivity. Qed.

Example round_half_even_up : round_half_even (7 # 2) = 4%Z.
Proof. reflexivity. Qed.

Example round_half_even_neg : round_half_even (- (5 # 2)) = (-2)%Z.
Proof. reflexivity. Qed.

Example round_ndigits_tie : round_ndigits (1 # 4) 1 == 2 # 10.
Proof. reflexivity. Qed.

Example round_ndigits_839 : round_ndigits (839 # 100) 1 == 84 # 10.
Proof. reflexivity. Qed.

Lemma round_half_even_near (value : Q) :
  value - (1 # 2) <= inject_Z (round_half_even value) <= value + (1 # 2).
Proof.
  unfold round_half_even.
  pose proof (Qfloor_le value) as Hlo.
  pose proof (Qlt_floor value) as Hhi.
  rewrite inject_Z_plus in Hhi.
  change (inject_Z 1) with 1 in Hhi.
  destruct (Qcompare_spec (value - inject_Z (Qfloor value)) (1 # 2)) as [He|Hl|Hg].
  - destruct (Z.even (Qfloor value)).
    + split; lra.
    + rewrite inject_Z_plus. change (inject_Z 1) with 1. split; lra.
  - split; lra.
  - rewrite inject_Z_plus. change (inject_Z 1) with 1. split; lra.
Qed.

Lemma ten_power_pos (ndigits : Z) : 0 < 10 ^ ndigits.
Proof. apply Qpower_0_lt. reflexivity. Qed.

Lemma round_ndigits_near (value : Q) (ndigits : Z) :
  value - half_unit ndigits <= round_ndigits value ndigits
    <= value + half_unit ndigits.
Proof.
  unfold round_ndigits, half_unit.
  pose proof (ten_power_pos ndigits) as Hp.
  set (p := 10 ^ ndigits) in *.
  assert (Hne : ~ p == 0) by lra.
  destruct (round_half_even_near (value * p)) as [Hlo Hhi].
  split.
  - apply Qle_shift_div_l; [exact Hp|].
    setoid_replace ((value - (1 # 2) / p) * p) with (value * p - (1 # 2))
      using relation Qeq by (field; exact Hne).
    exact Hlo.
  - apply Qle_shift_div_r; [exact Hp|].
    setoid_replace ((value + (1 # 2) / p) * p) with (value * p + (1 # 2))
      using relation Qeq by (field; exact Hne).
    exact Hhi.
Qed.

Lemma half_unit_0 : half_unit 0 == 1 # 2.
Proof. reflexivity. Qed.

Lemma half_unit_1 : half_unit 1 == 1 # 20.
Proof. reflexivity. Qed.

(** A rounded integer has no fractional part. *)
Lemma inject_Z_whole (z : Z) : inject_Z (Qfloor (inject_Z z)) = inject_Z z.
Proof. now rewrite Qfloor_Z. Qed.

(** Rounding does not step over a bound that is itself a rounded number. *)
Lemma round_half_even_between (a b : Z) (value : Q) :
  inject_Z a <= value <= inject_Z b ->
  (a <= round_half_even value <= b)%Z.
Proof.
  intros [Ha Hb].
  pose proof (Qfloor_resp_le _ _ Ha) as Hfa. rewrite Qfloor_Z in Hfa.
  pose proof (Qfloor_resp_le _ _ Hb) as Hfb. rewrite Qfloor_Z in Hfb.
  assert (Hstep : 0 < value - inject_Z (Qfloor value) ->
                  (Qfloor value + 1 <= b)%Z).
  { intros Hpos. destruct (Z.eq_dec (Qfloor value) b) as [He|Hne]; [|lia].
    rewrite He in Hpos. lra. }
  unfold round_half_even.
  destruct (Qcompare_spec (value - inject_Z (Qfloor value)) (1 # 2)) as [He|Hl|Hg].
  - destruct (Z.even (Qfloor value)); [lia|].
    split; [lia|]. apply Hstep. lra.
  - lia.
  - split; [lia|]. apply Hstep. lra.
Qed.

Lemma round_ndigits_between (a b : Z) (ndigits : Z) (value : Q) :
  inject_Z a / 10 ^ ndigits <= value <= inject_Z b / 10 ^ ndigits ->
  inject_Z a / 10 ^ ndigits <= round_ndigits value ndigits
    <= inject_Z b / 10 ^ ndigits.
Proof.
  intros [Ha Hb]. unfold round_ndigits.
  pose proof (ten_power_pos ndigits) as Hp.
  set (p := 10 ^ ndigits) in *.
  assert (Hne : ~ p == 0) by lra.
  destruct (round_half_even_between a b (value * p)) as [Hlo Hhi].
  { split.
    - setoid_replace (inject_Z a) with (inject_Z a / p * p) using relation Qeq
        by (field; exact Hne).
      apply Qmult_le_compat_r; lra.
    - setoid_replace (inject_Z b) with (inject_Z b / p * p) using relation Qeq
        by (field; exact Hne).
      apply Qmult_le_compat_r; lra. }
  split.
  - apply Qmult_le_compat_r; [|apply Qlt_le_weak, Qinv_lt_0_compat, Hp].
    now rewrite <- Zle_Qle.
  - apply Qmult_le_compat_r; [|apply Qlt_le_weak, Qinv_lt_0_compat, Hp].
    now rewrite <- Zle_Qle.
Qed.

(** ** The range table *)

Lemma lookup_flow : INFLUENT_RANGES !! "flow_m3_h" = Some (20, 500).
Proof. reflexivity. Qed.

Lemma lookup_temp : INFLUENT_RANGES !! "temp_C" = Some (10, 35).
Proof. reflexivity. Qed.

Lemma lookup_pH : INFLUENT_RANGES !! "pH" = Some (6.0, 8.5).
Proof. reflexivity. Qed.

Lemma lookup_TSS : INFLUENT_RANGES !! "TSS_in_mgL" = Some (80, 800).
Proof. reflexivity. Qed.

Lemma lookup_BOD : INFLUENT_RANGES !! "BOD_in_mgL" = Some (100, 500).
Proof. reflexivity. Qed.

Lemma lookup_COD : INFLUENT_RANGES !! "COD_in_mgL" = Some (200, 1000).
Proof. reflexivity. Qed.

Lemma lookup_oil : INFLUENT_RANGES !! "oil_grease_in_mgL" = Some (1, 50).
Proof. reflexivity. Qed.

Lemma lookup_turbidity : INFLUENT_RANGES !! "turbidity_in_NTU" = Some (20, 500).
Proof. reflexivity. Qed.

(** The table has the eight sampled keys and no other. *)
Lemma table_keys : dom INFLUENT_RANGES = list_to_set sampled_keys.
Proof. reflexivity. Qed.

(** ** The sampler *)

Section SamplerFacts.
Context `{RandomSource}.

Lemma bind_ok {A B : Type} (m : M A) (k : A -> M B) (s s' : rng) (a : A) :
  m s = (Ok a, s') -> bind m k s = k a s'.
Proof. intros Hm. unfold bind. now rewrite Hm. Qed.

Lemma getitem_ok {V : Type} (d : gmap string V) (key : string) (v : V) (s : rng) :
  d !! key = Some v -> getitem d key s = (Ok v, s).
Proof. intros Hk. unfold getitem. now rewrite Hk. Qed.

Lemma rand_run (low high : Q) (decimals : Z) (s : rng) :
  rand low high decimals s =
    (Ok (rounded decimals (uniform low high s).1), (uniform low high s).2).
Proof.
  unfold rand, bind, random_uniform, rounded.
  destruct (uniform low high s) as [value s']; cbn [fst snd].
  now destruct (decimals =? 0)%Z.
Qed.

Ltac run_item Hlookup :=
  rewrite (bind_ok _ _ _ _ _ (getitem_ok _ _ _ _ Hlookup)); cbv beta iota;
  rewrite (bind_ok _ _ _ _ _ (rand_run _ _ _ _)).

(** One call of the sampler, written out draw by draw. *)
Lemma generate_influent_run (s : rng) :
  let d1 := uniform 20 500 s in
  let d2 := uniform 10 35 d1.2 in
  let d3 := uniform 6.0 8.5 d2.2 in
  let d4 := uniform 80 800 d3.2 in
  let d5 := uniform 100 500 d4.2 in
  let d6 := uniform 200 1000 d5.2 in
  let d7 := uniform 1 50 d6.2 in
  let d8 := uniform 20 500 d7.2 in
  generate_influent s =
    (Ok {| flow_m3_h := inject_Z (round_half_even d1.1);
           temp_C := round_ndigits d2.1 1;
           pH := round_ndigits d3.1 1;
           TSS_in_mgL := round_ndigits d4.1 1;
           BOD_in_mgL := round_ndigits d5.1 1;
           COD_in_mgL := round_ndigits d6.1 1;
           oil_grease_in_mgL := round_ndigits d7.1 1;
           turbidity_in_NTU := round_ndigits d8.1 1 |}, after_sample s).
Proof.
  intros d1 d2 d3 d4 d5 d6 d7 d8.
  unfold generate_influent.
  run_item lookup_flow. run_item lookup_temp. run_item lookup_pH.
  run_item lookup_TSS. run_item lookup_BOD. run_item lookup_COD.
  run_item lookup_oil. run_item lookup_turbidity.
  unfold after_sample, sampled_keys. cbn [fold_left]. unfold draw.
  rewrite lookup_flow, lookup_temp, lookup_pH, lookup_TSS, lookup_BOD,
    lookup_COD, lookup_oil, lookup_turbidity.
  reflexivity.
Qed.

(** The sampler returns on every generator state. *)
Lemma generate_influent_ok (s : rng) :
  exists x : Influent, generate_influent s = (Ok x, after_sample s).
Proof. eexists. apply generate_influent_run. Qed.

Lemma rounded_int_within (key : string) (low high value : Q) :
  INFLUENT_RANGES !! key = Some (low, high) ->
  low <= value <= high ->
  within_tolerance key 0 (inject_Z (round_half_even value)).
Proof.
  intros Hk [Hlo Hhi]. exists low, high. split; [exact Hk|].
  pose proof (round_half_even_near value) as [Ha Hb].
  pose proof half_unit_0 as Hu.
  split; lra.
Qed.

Lemma rounded_float_within (key : string) (decimals : Z) (low high value : Q) :
  INFLUENT_RANGES !! key = Some (low, high) ->
  low <= value <= high ->
  within_tolerance key decimals (round_ndigits value decimals).
Proof.
  intros Hk [Hlo Hhi]. exists low, high. split; [exact Hk|].
  pose proof (round_ndigits_near value decimals) as [Ha Hb].
  split; lra.
Qed.

Lemma generate_influent_in_bounds (s : rng) :
  uniform_in_range ->
  exists x : Influent,
    generate_influent s = (Ok x, after_sample s) /\ sample_in_bounds x.
Proof.
  intros Hu. eexists. split; [apply generate_influent_run|].
  unfold sample_in_bounds; cbn [flow_m3_h temp_C pH TSS_in_mgL BOD_in_mgL
    COD_in_mgL oil_grease_in_mgL turbidity_in_NTU].
  repeat split;
    first [ eapply rounded_int_within | eapply rounded_float_within ];
    first [ reflexivity | apply Hu; discriminate ].
Qed.

(** The bounds of the table are whole tenths, so the rounding keeps every
    field inside its range. *)
Lemma rounded_int_exact (key : string) (a b : Z) (value : Q) :
  INFLUENT_RANGES !! key = Some (inject_Z a, inject_Z b) ->
  inject_Z a <= value <= inject_Z b ->
  within_range key (inject_Z (round_half_even value)).
Proof.
  intros Hk Hv. exists (inject_Z a), (inject_Z b). split; [exact Hk|].
  destruct (round_half_even_between a b value Hv) as [Hlo Hhi].
  split; now rewrite <- Zle_Qle.
Qed.

Lemma rounded_float_exact (key : string) (a b : Z) (low high value : Q) :
  INFLUENT_RANGES !! key = Some (low, high) ->
  low == inject_Z a / 10 ^ 1 ->
  high == inject_Z b / 10 ^ 1 ->
  low <= value <= high ->
  within_range key (round_ndigits value 1).
Proof.
  intros Hk Hl Hh Hv. exists low, high. split; [exact Hk|].
  rewrite Hl, Hh in *. now apply round_ndigits_between.
Qed.

Lemma generate_influent_in_ranges (s : rng) :
  uniform_in_range ->
  exists x : Influent,
    generate_influent s = (Ok x, after_sample s) /\ sample_in_ranges x.
Proof.
  intros Hu. eexists. split; [apply generate_influent_run|].
  unfold sample_in_ranges; cbn [flow_m3_h temp_C pH TSS_in_mgL BOD_in_mgL
    COD_in_mgL oil_grease_in_mgL turbidity_in_NTU].
  repeat split.
  - apply (rounded_int_exact _ 20 500); [reflexivity | apply Hu; discriminate].
  - apply (rounded_float_exact _ 100 350 10 35);
      [reflexivity .. | apply Hu; discriminate].
  - apply (rounded_float_exact _ 60 85 6.0 8.5);
      [reflexivity .. | apply Hu; discriminate].
  - apply (rounded_float_exact _ 800 8000 80 800);
      [reflexivity .. | apply Hu; discriminate].
  - apply (rounded_float_exact _ 1000 5000 100 500);
      [reflexivity .. | apply Hu; discriminate].
  - apply (rounded_float_exact _ 2000 10000 200 1000);
      [reflexivity .. | apply Hu; discriminate].
  - apply (rounded_float_exact _ 10 500 1 50);
      [reflexivity .. | apply Hu; discriminate].
  - apply (rounded_float_exact _ 200 5000 20 500);
      [reflexivity .. | apply Hu; discriminate].
Qed.
End SamplerFacts.

(** ** The list comprehension of the batch route *)

Section BatchFacts.
Context `{RandomSource}.

Lemma list_comprehension_run {A : Type} (call : M A) (next : rng -> rng)
    (P : A -> Prop) :
  (forall s, exists x, call s = (Ok x, next s) /\ P x) ->
  forall (n : nat) (s : rng),
    exists xs : list A,
      list_comprehension call n s = (Ok xs, Nat.iter n next s)
      /\ length xs = n
      /\ Forall P xs
      /\ forall i : nat, (i < n)%nat ->
           exists x, xs !! i = Some x
                     /\ call (Nat.iter i next s) = (Ok x, Nat.iter (S i) next s).
Proof.
  intros Hcall n. induction n as [|n IH]; intros s.
  - exists []. repeat split; [constructor | lia].
  - destruct (Hcall s) as (x & Hx & HP).
    destruct (IH (next s)) as (xs & Hxs & Hlen & Hall & Hidx).
    exists (x :: xs). split; [|split; [|split]].
    + cbn [list_comprehension].
      rewrite (bind_ok _ _ _ _ _ Hx), (bind_ok _ _ _ _ _ Hxs).
      now rewrite Nat.iter_succ_r.
    + cbn [length]. now rewrite Hlen.
    + now constructor.
    + intros [|i] Hi.
      * exists x. split; [reflexivity | exact Hx].
      * destruct (Hidx i) as (y & Hy & Hrun); [lia|].
        exists y. split; [exact Hy|].
        rewrite !Nat.iter_succ_r. rewrite Nat.iter_succ_r in Hrun. exact Hrun.
Qed.

(** The clamping route is the validating function at the clamped count. *)
Lemma clamped_batch (n : Z) :
  influent_API.get_batch_influent n
    = influent_api.get_batch_influent (Z.max 1 (Z.min n 100)).
Proof. reflexivity. Qed.

Lemma get_batch_influent_run (P : Influent -> Prop) (n : Z) (s : rng) :
  (forall s, exists x, generate_influent s = (Ok x, after_sample s) /\ P x) ->
  exists xs : list Influent,
    influent_api.get_batch_influent n s
      = (Ok {| count := n; influents := xs |}, after_samples (Z.to_nat n) s)
    /\ length xs = Z.to_nat n
    /\ Forall P xs
    /\ forall i : nat, (i < Z.to_nat n)%nat ->
         exists x, xs !! i = Some x
                   /\ generate_influent (after_samples i s)
                        = (Ok x, after_samples (S i) s).
Proof.
  intros Hgen.
  destruct (list_comprehension_run _ _ P Hgen (Z.to_nat n) s)
    as (xs & Hxs & Hlen & Hall & Hidx).
  exists xs. split; [|auto].
  unfold influent_api.get_batch_influent.
  now rewrite (bind_ok _ _ _ _ _ Hxs).
Qed.

Lemma generate_influent_trivially (s : rng) :
  exists x, generate_influent s = (Ok x, after_sample s) /\ True.
Proof. destruct (generate_influent_ok s) as [x Hx]. eauto. Qed.

(** Routing of the four requests the claims speak of. *)

Lemma route_batch_API (q : param) :
  influent_API.app (batch_request q) = influent_API.batch_endpoint q.
Proof. reflexivity. Qed.

Lemma route_batch_api (q : param) :
  influent_api.app (batch_request q) = influent_api.batch_endpoint q.
Proof. reflexivity. Qed.

Lemma route_single_API (q : param) :
  influent_API.app (single_request q) = respond Sample get_single_influent.
Proof. reflexivity. Qed.

Lemma route_single_api (q : param) :
  influent_api.app (single_request q) = respond Sample get_single_influent.
Proof. reflexivity. Qed.

(** A route that runs the batch function at a count [n >= 0] serves [n]
    samples. *)
Lemma respond_serves_batch (app : Request -> rng -> Response * rng)
    (q : param) (n : Z) (s : rng) :
  (0 <= n)%Z ->
  app (batch_request q) = respond Batch (influent_api.get_batch_influent n) ->
  serves_batch app q n s.
Proof.
  intros Hn Happ.
  destruct (get_batch_influent_run (fun _ => True) n s generate_influent_trivially)
    as (xs & Hrun & Hlen & _ & Hidx).
  exists {| count := n; influents := xs |}.
  split; [|split; [|split]].
  - rewrite Happ. unfold respond. now rewrite Hrun.
  - reflexivity.
  - cbn [influents]. rewrite Hlen. lia.
  - exact Hidx.
Qed.

Lemma in_range_test (n : Z) :
  (1 <= n <= 100)%Z -> ((1 <=? n) && (n <=? 100))%Z = true.
Proof. intros Hn. apply andb_true_intro. split; lia. Qed.

Lemma out_of_range_test (n : Z) :
  (n < 1 \/ 100 < n)%Z -> ((1 <=? n) && (n <=? 100))%Z = false.
Proof. intros Hn. apply andb_false_iff. lia. Qed.

Lemma clamp_id (n : Z) : (1 <= n <= 100)%Z -> Z.max 1 (Z.min n 100) = n.
Proof. lia. Qed.

Lemma serves_batch_API (n : Z) (s : rng) :
  serves_batch influent_API.app (Given n) (Z.max 1 (Z.min n 100)) s.
Proof. apply respond_serves_batch; [lia | reflexivity]. Qed.

Lemma serves_batch_api (n : Z) (s : rng) :
  (1 <= n <= 100)%Z -> serves_batch influent_api.app (Given n) n s.
Proof.
  intros Hn. apply respond_serves_batch; [lia|].
  rewrite route_batch_api. cbn [influent_api.batch_endpoint].
  now rewrite in_range_test.
Qed.

Lemma rejects_api (n : Z) (s : rng) :
  (n < 1 \/ 100 < n)%Z ->
  influent_api.app (batch_request (Given n)) s
    = ({| status_code := 422; body := ValidationError |}, s).
Proof.
  intros Hn. rewrite route_batch_api. cbn [influent_api.batch_endpoint].
  now rewrite out_of_range_test.
Qed.
End BatchFacts.

(** ** The concrete random source draws in range *)

Lemma lcg_unit_bounds (seed : Z) : 0 <= lcg_unit seed <= 1.
Proof.
  unfold lcg_unit, Qle; cbn [Qnum Qden].
  pose proof (Z.mod_pos_bound seed 2147483648 eq_refl). lia.
Qed.

Lemma lcg_in_range : @uniform_in_range lcg_source.
Proof.
  intros a b seed Hab. cbn [uniform lcg_source fst].
  destruct (lcg_unit_bounds seed) as [H0 H1].
  set (u := lcg_unit seed) in *.
  assert (Hp : 0 <= (b - a) * u) by (apply Qmult_le_0_compat; lra).
  assert (Hq : 0 <= (b - a) * (1 - u)) by (apply Qmult_le_0_compat; lra).
  split; lra.
Qed.

(** The model at work on this source. *)

Example sample_of_seed_42 :
  @generate_influent lcg_source 42%Z
    = (Ok {| flow_m3_h := 20; temp_C := 24.6; pH := 7.3; TSS_in_mgL := 415.5;
             BOD_in_mgL := 410.8; COD_in_mgL := 538.3;
             oil_grease_in_mgL := 2.6; turbidity_in_NTU := 220.3 |},
       1736731266%Z).
Proof. vm_compute. reflexivity. Qed.

Example batch_of_zero_API :
  (@influent_API.app lcg_source (batch_request (Given 0)) 7%Z).1
    = {| status_code := 200;
         body := Batch {| count := 1;
                          influents :=
                            [ {| flow_m3_h := 20; temp_C := 24.9; pH := 6.7;
                                 TSS_in_mgL := 318.8; BOD_in_mgL := 376.8;
                                 COD_in_mgL := 994.2; oil_grease_in_mgL := 6.0;
                                 turbidity_in_NTU := 489.3 |} ] |} |}.
Proof. vm_compute. reflexivity. Qed.

Example batch_of_zero_api :
  (@influent_api.app lcg_source (batch_request (Given 0)) 7%Z).1
    = {| status_code := 422; body := ValidationError |}.
Proof. reflexivity. Qed.

(** ** The sampler: claims C1, C6 and C9 *)

Section SamplerClaims.
Context `{RandomSource}.

Lemma respond_batch_in_bounds (n : Z) (s : rng) (b : InfluentBatch) :
  uniform_in_range ->
  body (respond Batch (influent_api.get_batch_influent n) s).1 = Batch b ->
  Forall sample_in_bounds (influents b).
Proof.
  intros Hu.
  destruct (get_batch_influent_run sample_in_bounds n s
              (fun s' => generate_influent_in_bounds s' Hu))
    as (xs & Hrun & _ & Hall & _).
  unfold respond. rewrite Hrun. cbn [fst body].
  intros [= <-]. exact Hall.
Qed.

Lemma respond_single_in_bounds (s : rng) :
  uniform_in_range ->
  exists x : Influent,
    respond Sample get_single_influent s
      = ({| status_code := 200; body := Sample x |}, after_sample s)
    /\ sample_in_bounds x.
Proof.
  intros Hu. destruct (generate_influent_in_bounds s Hu) as (x & Hx & Hb).
  exists x. split; [|exact Hb].
  unfold respond, get_single_influent. now rewrite Hx.
Qed.
End SamplerClaims.

(** C1.  If every uniform draw lies in its closed interval, each of the eight
    fields of the sample that [generate_influent] returns is within its range
    of the table up to half a unit of its last decimal (no decimal for
    [flow_m3_h], one for the seven other fields); so are the sample of
    [GET /influent] and every element of a [GET /influent/batch] response, in
    both files. *)
Theorem sample_within_ranges `{RandomSource} :
  uniform_in_range ->
  forall s : rng,
    (exists x : Influent,
       generate_influent s = (Ok x, after_sample s) /\ sample_in_bounds x)
    /\ (forall q : param, exists x : Influent,
          influent_API.app (single_request q) s
            = ({| status_code := 200; body := Sample x |}, after_sample s)
          /\ sample_in_bounds x)
    /\ (forall q : param, exists x : Influent,
          influent_api.app (single_request q) s
            = ({| status_code := 200; body := Sample x |}, after_sample s)
          /\ sample_in_bounds x)
    /\ (forall (q : param) (b : InfluentBatch),
          body (influent_API.app (batch_request q) s).1 = Batch b ->
          Forall sample_in_bounds (influents b))
    /\ (forall (q : param) (b : InfluentBatch),
          body (influent_api.app (batch_request q) s).1 = Batch b ->
          Forall sample_in_bounds (influents b)).
Proof.
  intros Hu s. split; [|split; [|split; [|split]]].
  - now apply generate_influent_in_bounds.
  - intros q. rewrite route_single_API. now apply respond_single_in_bounds.
  - intros q. rewrite route_single_api. now apply respond_single_in_bounds.
  - intros q b. rewrite route_batch_API.
    destruct q as [|n|raw]; cbn [influent_API.batch_endpoint].
    + rewrite clamped_batch. now apply respond_batch_in_bounds.
    + rewrite clamped_batch. now apply respond_batch_in_bounds.
    + discriminate.
  - intros q b. rewrite route_batch_api.
    destruct q as [|n|raw]; cbn [influent_api.batch_endpoint].
    + now apply respond_batch_in_bounds.
    + destruct ((1 <=? n) && (n <=? 100))%Z.
      * now apply respond_batch_in_bounds.
      * discriminate.
    + discriminate.
Qed.

Lemma sample_within_ranges_witness :
  @uniform_in_range lcg_source
  /\ exists x : Influent,
       @generate_influent lcg_source 42%Z = (Ok x, @after_sample lcg_source 42%Z)
       /\ sample_in_bounds x.
Proof.
  split; [exact lcg_in_range|].
  exact (proj1 (@sample_within_ranges lcg_source lcg_in_range 42%Z)).
Defined.

(** C6.  The [flow_m3_h] field of every generated sample is a whole number:
    it is the draw from [(20, 500)] rounded to the nearest integer, at most
    one half away from the draw, and its fractional part is zero. *)
Theorem flow_is_whole `{RandomSource} :
  forall s : rng,
  exists x : Influent,
    generate_influent s = (Ok x, after_sample s)
    /\ flow_m3_h x = inject_Z (round_half_even (uniform 20 500 s).1)
    /\ (uniform 20 500 s).1 - (1 # 2) <= flow_m3_h x <= (uniform 20 500 s).1 + (1 # 2)
    /\ flow_m3_h x - inject_Z (Qfloor (flow_m3_h x)) == 0.
Proof.
  intros s. eexists. split; [apply generate_influent_run|].
  cbn [flow_m3_h]. split; [reflexivity|]. split.
  - apply round_half_even_near.
  - rewrite inject_Z_whole. ring.
Qed.

(** C9.  [generate_influent] is total: on every state of the random source it
    returns an [Influent] record and raises nothing, and the state it leaves
    is the one after the eight uniform draws of the table, in order; the
    generator is the only state a call has. *)
Theorem generate_influent_total `{RandomSource} :
  forall s : rng,
  exists x : Influent, generate_influent s = (Ok x, after_sample s).
Proof. intros s. eexists. apply generate_influent_run. Qed.

(** ** The routes: claims C2, C3, C4, C5, C7, C8 and C10 *)

Section RouteFacts.
Context `{RandomSource}.

Lemma serves_batch_counted (app : Request -> rng -> Response * rng)
    (q : param) (n : Z) (s : rng) :
  serves_batch app q n s -> rejected_or_counted (app (batch_request q) s).1.
Proof.
  intros (b & Hrun & Hcount & Hlen & _). right. exists b.
  rewrite Hrun. split; [reflexivity | congruence].
Qed.

Lemma serves_batch_default_API (s : rng) :
  serves_batch influent_API.app Absent 5 s.
Proof. apply respond_serves_batch; [lia | reflexivity]. Qed.

Lemma serves_batch_default_api (s : rng) :
  serves_batch influent_api.app Absent 5 s.
Proof. apply respond_serves_batch; [lia | reflexivity]. Qed.

Lemma serves_batch_status (app : Request -> rng -> Response * rng)
    (q : param) (n : Z) (s : rng) :
  serves_batch app q n s -> status_code (app (batch_request q) s).1 = 200%Z.
Proof. intros (b & Hrun & _). now rewrite Hrun. Qed.

(** Called without the validation of its route, the function of
    [influent_api.py] would report a negative count for an empty list. *)
Remark unvalidated_negative_count (s : rng) :
  influent_api.get_batch_influent (-3) s
    = (Ok {| count := -3; influents := [] |}, s).
Proof. reflexivity. Qed.


(** [HEAD /] on [influent_api.py]: the route added for health probes, with
    the status code its decorator declares. *)
Lemma head_root_routed_api (q : param) (s : rng) :
  influent_api.app (root_request HEAD q) s
    = ({| status_code := 200; body := Empty |}, s).
Proof. reflexivity. Qed.
End RouteFacts.

(** C2.  Every response of the batch route, in either file, is the rejection
    of the parameter or carries an [InfluentBatch] whose [count] equals the
    length of its [influents]. *)
Theorem batch_count_is_length `{RandomSource} :
  forall (q : param) (s : rng),
    rejected_or_counted (influent_API.app (batch_request q) s).1
    /\ rejected_or_counted (influent_api.app (batch_request q) s).1.
Proof.
  intros q s. destruct q as [|n|raw].
  - split; eapply serves_batch_counted;
      [apply serves_batch_default_API | apply serves_batch_default_api].
  - split.
    + eapply serves_batch_counted, serves_batch_API.
    + destruct (decide (1 <= n <= 100)%Z) as [Hin|Hout].
      * eapply serves_batch_counted, serves_batch_api, Hin.
      * left. rewrite rejects_api by lia. reflexivity.
  - split; left; reflexivity.
Qed.

(** C3.  For every integer [n] of [1, 100], [GET /influent/batch?n=<n>]
    returns, in either file, a batch with [count = n] and exactly [n]
    samples, the sample at each index being the value of its own call of
    [generate_influent] on the generator left by the calls before it. *)
Theorem batch_has_n_samples `{RandomSource} :
  forall n : Z, (1 <= n <= 100)%Z ->
  forall s : rng,
    serves_batch influent_API.app (Given n) n s
    /\ serves_batch influent_api.app (Given n) n s.
Proof.
  intros n Hn s. split.
  - rewrite <- (clamp_id n Hn) at 2. apply serves_batch_API.
  - now apply serves_batch_api.
Qed.

Lemma batch_has_n_samples_witness :
  (1 <= 10 <= 100)%Z
  /\ @serves_batch lcg_source influent_API.app (Given 10) 10 2024%Z
  /\ @serves_batch lcg_source influent_api.app (Given 10) 10 2024%Z.
Proof.
  split; [lia|].
  apply (@batch_has_n_samples lcg_source 10%Z); lia.
Defined.

(** C4.  Each file applies one policy to both out-of-range counts [n = 0] and
    [n = 1000]: [influent_API.py] clamps both (count 1 and count 100) and
    rejects neither, [influent_api.py] rejects both with a client error and
    clamps neither. *)
Theorem out_of_range_policy_uniform `{RandomSource} :
  forall s : rng,
    (clamps_both influent_API.app s /\ ~ rejects_both influent_API.app s)
    /\ (rejects_both influent_api.app s /\ ~ clamps_both influent_api.app s).
Proof.
  intros s. split; split.
  - split; [exact (serves_batch_API 0 s) | exact (serves_batch_API 1000 s)].
  - intros [H0 _]. unfold client_error in H0.
    rewrite (serves_batch_status _ _ _ _ (serves_batch_API 0 s)) in H0. lia.
  - unfold rejects_both, client_error.
    rewrite !rejects_api by lia. cbn [fst status_code]. lia.
  - intros [H0 _]. apply serves_batch_status in H0.
    rewrite rejects_api in H0 by lia. discriminate.
Qed.

(** C5.  [GET /influent/batch] without the parameter [n] uses the default 5:
    the batch has [count = 5] and five samples, in either file. *)
Theorem batch_default_is_five `{RandomSource} :
  forall s : rng,
    serves_batch influent_API.app Absent 5 s
    /\ serves_batch influent_api.app Absent 5 s.
Proof.
  intros s. split;
    [apply serves_batch_default_API | apply serves_batch_default_api].
Qed.

(** C7.  [GET /] answers 200 with the fixed health payload, whatever the
    query and whatever state earlier requests left, and leaves that state as
    it was; in either file. *)
Theorem root_is_fixed `{RandomSource} :
  forall (q : param) (s : rng),
    influent_API.app (root_request GET q) s = (health_response, s)
    /\ influent_api.app (root_request GET q) s = (health_response, s).
Proof. intros q s. split; reflexivity. Qed.

(** C8, at the failing request.  [influent_API.py] routes [/] for [GET] only:
    a [HEAD /] request is answered 405 and not 200. *)
Theorem head_root_unrouted_API `{RandomSource} :
  forall (q : param) (s : rng),
    influent_API.app (root_request HEAD q) s
      = ({| status_code := 405; body := Detail "Method Not Allowed" |}, s).
Proof. intros q s. reflexivity. Qed.

(** C10.  For every [n] of [1, 100] and the same state of the random source,
    the batch functions and the batch routes of the two files return the same
    result and leave the same state: a batch with [count = n] and [n]
    samples; the clamp of [influent_API.py] is the identity there. *)
Theorem variants_agree_in_range `{RandomSource} :
  forall n : Z, (1 <= n <= 100)%Z ->
  forall s : rng,
    Z.max 1 (Z.min n 100) = n
    /\ influent_API.get_batch_influent n s = influent_api.get_batch_influent n s
    /\ influent_API.app (batch_request (Given n)) s
         = influent_api.app (batch_request (Given n)) s
    /\ serves_batch influent_API.app (Given n) n s.
Proof.
  intros n Hn s. pose proof (clamp_id n Hn) as Hc.
  split; [exact Hc|]. split; [|split].
  - rewrite clamped_batch. now rewrite Hc.
  - rewrite route_batch_API, route_batch_api.
    cbn [influent_API.batch_endpoint influent_api.batch_endpoint].
    rewrite in_range_test by exact Hn.
    rewrite clamped_batch. now rewrite Hc.
  - rewrite <- Hc at 2. apply serves_batch_API.
Qed.

Lemma variants_agree_in_range_witness :
  (1 <= 3 <= 100)%Z
  /\ @influent_API.get_batch_influent lcg_source 3 7%Z
       = @influent_api.get_batch_influent lcg_source 3 7%Z
  /\ @influent_API.app lcg_source (batch_request (Given 3)) 7%Z
       = @influent_api.app lcg_source (batch_request (Given 3)) 7%Z.
Proof.
  split; [lia|].
  destruct (@variants_agree_in_range lcg_source 3%Z ltac:(lia) 7%Z)
    as (_ & Hfun & Happ & _).
  split; [exact Hfun | exact Happ].
Defined.

(** * Further properties of the routes and of the sampler *)

(** ** Every request, case by case *)

(** Decide the tests of the router once path and method are known. *)
Ltac settle_tests :=
  repeat first
    [ rewrite bool_decide_eq_true_2 by (first [reflexivity | assumption])
    | rewrite bool_decide_eq_false_2 by (first [discriminate | assumption | congruence]) ];
  cbn [andb orb negb].

Section RequestCases.
Context `{RandomSource}.

Lemma app_API_cases (req : Request) :
  (method req = GET /\ path req = "/"
     /\ influent_API.app req = respond Health root)
  \/ (method req = GET /\ path req = "/influent"
     /\ influent_API.app req = respond Sample get_single_influent)
  \/ (method req = GET /\ path req = "/influent/batch"
     /\ influent_API.app req = influent_API.batch_endpoint (query_n req))
  \/ (method req <> GET
     /\ (path req = "/" \/ path req = "/influent" \/ path req = "/influent/batch")
     /\ influent_API.app req = method_not_allowed)
  \/ (path req <> "/" /\ path req <> "/influent" /\ path req <> "/influent/batch"
     /\ influent_API.app req = not_found).
Proof.
  destruct req as [m p q]. cbn [method path query_n].
  unfold influent_API.app, dispatch, influent_API.routes.
  cbn [List.find existsb]. unfold full_match, path_match.
  cbn [route_path route_method route_endpoint method path query_n].
  destruct (decide ("/" = p)) as [<-|Hroot];
    [|destruct (decide ("/influent" = p)) as [<-|Hsingle];
      [|destruct (decide ("/influent/batch" = p)) as [<-|Hbatch]]];
    destruct (decide (GET = m)) as [<-|Hm]; settle_tests.
  - left. repeat split.
  - do 3 right; left. split; [congruence|]. split; [left; reflexivity|]. reflexivity.
  - right; left. repeat split.
  - do 3 right; left. split; [congruence|]. split; [right; left; reflexivity|]. reflexivity.
  - do 2 right; left. repeat split.
  - do 3 right; left. split; [congruence|]. split; [right; right; reflexivity|]. reflexivity.
  - do 4 right. repeat split; congruence.
  - do 4 right. repeat split; congruence.
Qed.

Lemma app_api_cases (req : Request) :
  (method req = GET /\ path req = "/"
     /\ influent_api.app req = respond Health root)
  \/ (method req = HEAD /\ path req = "/"
     /\ influent_api.app req
          = fun s => (influent_api.head_root (injected_response 200), s))
  \/ (method req = GET /\ path req = "/influent"
     /\ influent_api.app req = respond Sample get_single_influent)
  \/ (method req = GET /\ path req = "/influent/batch"
     /\ influent_api.app req = influent_api.batch_endpoint (query_n req))
  \/ (method req <> GET /\ ~ (method req = HEAD /\ path req = "/")
     /\ (path req = "/" \/ path req = "/influent" \/ path req = "/influent/batch")
     /\ influent_api.app req = method_not_allowed)
  \/ (path req <> "/" /\ path req <> "/influent" /\ path req <> "/influent/batch"
     /\ influent_api.app req = not_found).
Proof.
  destruct req as [m p q]. cbn [method path query_n].
  unfold influent_api.app, dispatch, influent_api.routes.
  cbn [List.find existsb]. unfold full_match, path_match.
  cbn [route_path route_method route_endpoint method path query_n].
  destruct (decide ("/" = p)) as [<-|Hroot];
    [|destruct (decide ("/influent" = p)) as [<-|Hsingle];
      [|destruct (decide ("/influent/batch" = p)) as [<-|Hbatch]]];
    destruct m; settle_tests.
  all: first
    [ left; repeat split; reflexivity
    | right; left; repeat split; reflexivity
    | do 2 right; left; repeat split; reflexivity
    | do 3 right; left; repeat split; reflexivity
    | do 4 right; left;
      (split; [discriminate|]); (split; [intros [? ?]; congruence|]);
      (split; [auto|]); reflexivity
    | do 5 right; repeat split; congruence ].
Qed.
End RequestCases.

(** ** What every answer accounts for *)

Section AccountingFacts.
Context `{RandomSource}.

Lemma well_served_without_samples (r : Response) :
  routed_status r ->
  samples_of (body r) = [] ->
  (forall b, body r <> Batch b) ->
  well_served (fun s => (r, s)).
Proof.
  intros Hst Hnone Hnb s. cbn [fst snd]. unfold samples_in. rewrite Hnone.
  split; [reflexivity|]. split; [cbn; lia|]. split; [exact Hst|]. split.
  - intros b Hb. now destruct (Hnb b).
  - intros i x Hx. discriminate.
Qed.

Lemma well_served_health : well_served (respond Health root).
Proof.
  apply (well_served_without_samples health_response);
    [left; reflexivity | reflexivity | discriminate].
Qed.

Lemma well_served_head :
  well_served (fun s => (influent_api.head_root (injected_response 200), s)).
Proof.
  apply well_served_without_samples; [left; reflexivity | reflexivity | discriminate].
Qed.

Lemma well_served_unprocessable : well_served unprocessable.
Proof.
  apply (well_served_without_samples {| status_code := 422; body := ValidationError |});
    [do 3 right; reflexivity | reflexivity | discriminate].
Qed.

Lemma well_served_not_allowed : well_served method_not_allowed.
Proof.
  apply (well_served_without_samples
           {| status_code := 405; body := Detail "Method Not Allowed" |});
    [do 2 right; left; reflexivity | reflexivity | discriminate].
Qed.

Lemma well_served_not_found : well_served not_found.
Proof.
  apply (well_served_without_samples
           {| status_code := 404; body := Detail "Not Found" |});
    [right; left; reflexivity | reflexivity | discriminate].
Qed.

Lemma well_served_single : well_served (respond Sample get_single_influent).
Proof.
  intros s. destruct (generate_influent_ok s) as [x Hx].
  unfold respond, get_single_influent. rewrite Hx. cbn [fst snd body].
  split; [reflexivity|]. split; [cbn; lia|]. split; [left; reflexivity|]. split.
  - discriminate.
  - intros [|i] y Hy; [|discriminate].
    cbn in Hy. injection Hy as <-. exact Hx.
Qed.

Lemma well_served_batch (n : Z) :
  (1 <= n <= 100)%Z ->
  well_served (respond Batch (influent_api.get_batch_influent n)).
Proof.
  intros Hn s.
  destruct (get_batch_influent_run (fun _ => True) n s generate_influent_trivially)
    as (xs & Hrun & Hlen & _ & Hidx).
  unfold respond. rewrite Hrun. cbn [fst snd body].
  unfold samples_in. cbn [samples_of influents]. rewrite Hlen.
  split; [reflexivity|]. split; [lia|]. split; [left; reflexivity|]. split.
  - intros b [= <-]. cbn [count influents]. rewrite Hlen. lia.
  - intros i x Hx.
    destruct (Hidx i) as (y & Hy & Hgen).
    + rewrite <- Hlen. eapply lookup_lt_Some, Hx.
    + congruence.
Qed.

Lemma well_served_batch_API (q : param) :
  well_served (influent_API.batch_endpoint q).
Proof.
  destruct q as [|n|raw]; cbn [influent_API.batch_endpoint].
  - rewrite clamped_batch. apply well_served_batch. lia.
  - rewrite clamped_batch. apply well_served_batch. lia.
  - apply well_served_unprocessable.
Qed.

Lemma well_served_batch_api (q : param) :
  well_served (influent_api.batch_endpoint q).
Proof.
  destruct q as [|n|raw]; cbn [influent_api.batch_endpoint].
  - apply well_served_batch. lia.
  - destruct ((1 <=? n) && (n <=? 100))%Z eqn:Htest.
    + apply well_served_batch. apply andb_prop in Htest. lia.
    + apply well_served_unprocessable.
  - apply well_served_unprocessable.
Qed.

Lemma well_served_API (req : Request) : well_served (influent_API.app req).
Proof.
  destruct (app_API_cases req)
    as [(_ & _ & ->)|[(_ & _ & ->)|[(_ & _ & ->)|[(_ & _ & ->)|(_ & _ & _ & ->)]]]].
  - apply well_served_health.
  - apply well_served_single.
  - apply well_served_batch_API.
  - apply well_served_not_allowed.
  - apply well_served_not_found.
Qed.

Lemma well_served_api (req : Request) : well_served (influent_api.app req).
Proof.
  destruct (app_api_cases req)
    as [(_ & _ & ->)|[(_ & _ & ->)|[(_ & _ & ->)|[(_ & _ & ->)
        |[(_ & _ & _ & ->)|(_ & _ & _ & ->)]]]]].
  - apply well_served_health.
  - apply well_served_head.
  - apply well_served_single.
  - apply well_served_batch_api.
  - apply well_served_not_allowed.
  - apply well_served_not_found.
Qed.
End AccountingFacts.

(** ** Counting the draws *)

Section CountingFacts.
Context (R : RandomSource).

Lemma draw_counting (key : string) (low high : Q) (s : @rng R) (c : nat) :
  INFLUENT_RANGES !! key = Some (low, high) ->
  @draw (counting R) (s, c) key = (@draw R s key, S c).
Proof. intros Hk. unfold draw. rewrite Hk. reflexivity. Qed.

Lemma after_sample_counting (s : @rng R) (c : nat) :
  @after_sample (counting R) (s, c) = (@after_sample R s, (c + 8)%nat).
Proof.
  unfold after_sample, sampled_keys. cbn [fold_left].
  rewrite (draw_counting _ _ _ _ _ lookup_flow), (draw_counting _ _ _ _ _ lookup_temp),
    (draw_counting _ _ _ _ _ lookup_pH), (draw_counting _ _ _ _ _ lookup_TSS),
    (draw_counting _ _ _ _ _ lookup_BOD), (draw_counting _ _ _ _ _ lookup_COD),
    (draw_counting _ _ _ _ _ lookup_oil), (draw_counting _ _ _ _ _ lookup_turbidity).
  now rewrite (Nat.add_comm c 8).
Qed.

Lemma after_samples_counting (k : nat) (s : @rng R) (c : nat) :
  @after_samples (counting R) k (s, c) = (@after_samples R k s, (c + 8 * k)%nat).
Proof.
  induction k as [|k IH].
  - unfold after_samples. cbn [Nat.iter]. now rewrite Nat.mul_0_r, Nat.add_0_r.
  - change (@after_samples (counting R) (S k) (s, c))
      with (@after_sample (counting R) (@after_samples (counting R) k (s, c))).
    rewrite IH, after_sample_counting.
    change (@after_samples R (S k) s) with (@after_sample R (@after_samples R k s)).
    now replace (c + 8 * k + 8)%nat with (c + 8 * S k)%nat by lia.
Qed.
End CountingFacts.

(** ** What every response carries: X1 to X6 *)

(** X1.  If every uniform draw lies in its closed interval, every sample that
    either file returns, from [generate_influent], in the body of
    [GET /influent] or in a batch, has each of its eight fields inside the
    range of the table itself: the bounds are whole tenths, and the rounding
    does not step over them. *)
Theorem every_sample_inside_ranges `{RandomSource} :
  uniform_in_range ->
  forall (req : Request) (s : rng),
    (exists x : Influent,
       generate_influent s = (Ok x, after_sample s) /\ sample_in_ranges x)
    /\ Forall sample_in_ranges (samples_of (body (influent_API.app req s).1))
    /\ Forall sample_in_ranges (samples_of (body (influent_api.app req s).1)).
Proof.
  intros Hu req s. split; [now apply generate_influent_in_ranges|].
  split; apply Forall_lookup; intros i x Hx.
  - destruct (well_served_API req s) as (_ & _ & _ & _ & Hidx).
    destruct (generate_influent_in_ranges (after_samples i s) Hu) as (y & Hy & Hin).
    rewrite (Hidx i x Hx) in Hy. now injection Hy as <-.
  - destruct (well_served_api req s) as (_ & _ & _ & _ & Hidx).
    destruct (generate_influent_in_ranges (after_samples i s) Hu) as (y & Hy & Hin).
    rewrite (Hidx i x Hx) in Hy. now injection Hy as <-.
Qed.

Lemma every_sample_inside_ranges_witness :
  @uniform_in_range lcg_source
  /\ Forall sample_in_ranges
       (samples_of (body (@influent_API.app lcg_source (batch_request (Given 3)) 7%Z).1)).
Proof.
  split; [exact lcg_in_range|].
  exact (proj1 (proj2 (@every_sample_inside_ranges lcg_source lcg_in_range
                         (batch_request (Given 3)) 7%Z))).
Defined.

(** X2.  Every field of a generated sample other than [flow_m3_h] is a whole
    number of tenths: it has at most one decimal. *)
Theorem fields_have_one_decimal `{RandomSource} :
  forall s : rng,
  exists x : Influent,
    generate_influent s = (Ok x, after_sample s)
    /\ one_decimal (temp_C x) /\ one_decimal (pH x)
    /\ one_decimal (TSS_in_mgL x) /\ one_decimal (BOD_in_mgL x)
    /\ one_decimal (COD_in_mgL x) /\ one_decimal (oil_grease_in_mgL x)
    /\ one_decimal (turbidity_in_NTU x).
Proof.
  assert (Hone : forall v : Q, one_decimal (round_ndigits v 1)).
  { intros v. unfold one_decimal, round_ndigits.
    assert (Hten : inject_Z (round_half_even (v * 10 ^ 1)) / 10 ^ 1 * 10
                   == inject_Z (round_half_even (v * 10 ^ 1))).
    { change (10 ^ 1) with 10. field. }
    rewrite (Qfloor_comp _ _ Hten), Qfloor_Z. symmetry. exact Hten. }
  intros s. eexists. split; [apply generate_influent_run|].
  cbn [temp_C pH TSS_in_mgL BOD_in_mgL COD_in_mgL oil_grease_in_mgL
       turbidity_in_NTU].
  repeat split; apply Hone.
Qed.

(** X3.  Whatever the request, either file leaves the generator in the state
    after exactly as many samples as the response carries: the health check,
    [HEAD /], a rejected parameter and an unrouted request draw nothing,
    [GET /influent] draws one sample, a batch as many as it counts. *)
Theorem generator_advances_by_samples `{RandomSource} :
  forall (req : Request) (s : rng),
    (influent_API.app req s).2
      = after_samples (samples_in (body (influent_API.app req s).1)) s
    /\ (influent_api.app req s).2
      = after_samples (samples_in (body (influent_api.app req s).1)) s.
Proof.
  intros req s. split.
  - now destruct (well_served_API req s) as (Hst & _).
  - now destruct (well_served_api req s) as (Hst & _).
Qed.

(** X4.  Every sample costs exactly eight calls of [random.uniform]: on a
    source that counts its calls, a request to either file raises the count
    by eight times the number of samples in its response. *)
Theorem eight_draws_per_sample (R : RandomSource) :
  forall (req : Request) (s : @rng R) (c : nat),
    (@influent_API.app (counting R) req (s, c)).2.2
      = (c + 8 * samples_in (body (@influent_API.app (counting R) req (s, c)).1))%nat
    /\ (@influent_api.app (counting R) req (s, c)).2.2
      = (c + 8 * samples_in (body (@influent_api.app (counting R) req (s, c)).1))%nat.
Proof.
  intros req s c. split.
  - destruct (@well_served_API (counting R) req (s, c)) as (Hst & _).
    rewrite Hst at 1. now rewrite after_samples_counting.
  - destruct (@well_served_api (counting R) req (s, c)) as (Hst & _).
    rewrite Hst at 1. now rewrite after_samples_counting.
Qed.

(** X5.  The limit of the batch route holds for every request: no response
    of either file carries more than 100 samples, and a batch counts between
    1 and 100. *)
Theorem at_most_hundred_samples `{RandomSource} :
  forall (req : Request) (s : rng),
    ((samples_in (body (influent_API.app req s).1) <= 100)%nat
     /\ forall b : InfluentBatch,
          body (influent_API.app req s).1 = Batch b -> (1 <= count b <= 100)%Z)
    /\ ((samples_in (body (influent_api.app req s).1) <= 100)%nat
        /\ forall b : InfluentBatch,
             body (influent_api.app req s).1 = Batch b -> (1 <= count b <= 100)%Z).
Proof.
  intros req s. split.
  - destruct (well_served_API req s) as (_ & Hmax & _ & Hb & _).
    split; [exact Hmax|]. intros b Hbody. now destruct (Hb b Hbody).
  - destruct (well_served_api req s) as (_ & Hmax & _ & Hb & _).
    split; [exact Hmax|]. intros b Hbody. now destruct (Hb b Hbody).
Qed.


(** ** The two batch routes, request by request: X7 to X9 *)

(** X7.  [influent_API.py] answers the batch route for every integer [n],
    however small or large, with a batch of [max(1, min(n, 100))] samples:
    [n] itself inside [1, 100], one sample below, a hundred above. *)
Theorem clamping_serves_every_count `{RandomSource} :
  forall (n : Z) (s : rng),
    serves_batch influent_API.app (Given n) (Z.max 1 (Z.min n 100)) s
    /\ ((1 <= n <= 100)%Z /\ Z.max 1 (Z.min n 100) = n
        \/ (n < 1)%Z /\ Z.max 1 (Z.min n 100) = 1%Z
        \/ (100 < n)%Z /\ Z.max 1 (Z.min n 100) = 100%Z).
Proof. intros n s. split; [apply serves_batch_API | lia]. Qed.

(** X8.  [influent_api.py] serves a batch of [n] samples exactly for the
    integers [n] of [1, 100]; every other integer is answered 422, and the
    generator is left as it was. *)
Theorem validation_accepts_exactly_range `{RandomSource} :
  forall (n : Z) (s : rng),
    ((1 <= n <= 100)%Z /\ serves_batch influent_api.app (Given n) n s)
    \/ ((n < 1 \/ 100 < n)%Z
        /\ influent_api.app (batch_request (Given n)) s
             = ({| status_code := 422; body := ValidationError |}, s)).
Proof.
  intros n s. destruct (decide (1 <= n <= 100)%Z) as [Hin|Hout].
  - left. split; [exact Hin | now apply serves_batch_api].
  - right. assert (Hn : (n < 1 \/ 100 < n)%Z) by lia.
    split; [exact Hn | now apply rejects_api].
Qed.

Section Agreement.
Context `{RandomSource}.


End Agreement.


(** ** How requests compose: X10 and X11 *)

Section Composition.
Context `{RandomSource}.

Lemma list_comprehension_add {A : Type} (call : M A) (m n : nat) :
  forall (s s1 s2 : rng) (xs ys : list A),
    list_comprehension call m s = (Ok xs, s1) ->
    list_comprehension call n s1 = (Ok ys, s2) ->
    list_comprehension call (m + n) s = (Ok (xs ++ ys)%list, s2).
Proof.
  induction m as [|m IH]; intros s s1 s2 xs ys Hm Hn.
  - cbn in Hm. injection Hm as <- <-. exact Hn.
  - cbn [list_comprehension] in Hm. unfold bind at 1 in Hm.
    destruct (call s) as [[x|e] s'] eqn:Hcall; [|discriminate].
    unfold bind at 1 in Hm.
    destruct (list_comprehension call m s') as [[xs'|e] s''] eqn:Hrest;
      [|discriminate].
    injection Hm as <- <-.
    cbn [Nat.add list_comprehension].
    rewrite (bind_ok _ _ _ _ _ Hcall), (bind_ok _ _ _ _ _ (IH _ _ _ _ _ Hrest Hn)).
    reflexivity.
Qed.

Lemma batch_route_in_range (n : Z) :
  (1 <= n <= 100)%Z ->
  influent_API.app (batch_request (Given n))
    = respond Batch (influent_api.get_batch_influent n)
  /\ influent_api.app (batch_request (Given n))
    = respond Batch (influent_api.get_batch_influent n).
Proof.
  intros Hn. rewrite route_batch_API, route_batch_api.
  cbn [influent_API.batch_endpoint influent_api.batch_endpoint].
  rewrite clamped_batch, clamp_id, in_range_test by exact Hn.
  split; reflexivity.
Qed.

Lemma respond_batches_compose (m n : Z) (s : rng) :
  (0 <= m)%Z -> (0 <= n)%Z ->
  exists (xs ys : list Influent) (s1 s2 : rng),
    respond Batch (influent_api.get_batch_influent m) s
      = ({| status_code := 200;
            body := Batch {| count := m; influents := xs |} |}, s1)
    /\ respond Batch (influent_api.get_batch_influent n) s1
      = ({| status_code := 200;
            body := Batch {| count := n; influents := ys |} |}, s2)
    /\ respond Batch (influent_api.get_batch_influent (m + n)) s
      = ({| status_code := 200;
            body := Batch {| count := m + n; influents := xs ++ ys |} |}, s2).
Proof.
  intros Hm Hn.
  destruct (list_comprehension_run generate_influent after_sample (fun _ => True)
              generate_influent_trivially (Z.to_nat m) s) as (xs & Hxs & _).
  set (s1 := Nat.iter (Z.to_nat m) after_sample s) in *.
  destruct (list_comprehension_run generate_influent after_sample (fun _ => True)
              generate_influent_trivially (Z.to_nat n) s1) as (ys & Hys & _).
  set (s2 := Nat.iter (Z.to_nat n) after_sample s1) in *.
  pose proof (list_comprehension_add _ _ _ _ _ _ _ _ Hxs Hys) as Hsum.
  rewrite <- Z2Nat.inj_add in Hsum by lia.
  exists xs, ys, s1, s2.
  unfold respond, influent_api.get_batch_influent.
  rewrite (bind_ok _ _ _ _ _ Hxs), (bind_ok _ _ _ _ _ Hys), (bind_ok _ _ _ _ _ Hsum).
  repeat split.
Qed.
End Composition.

(** X10.  Batches compose: for [m >= 1], [n >= 1] and [m + n <= 100], two
    batch requests in a row, for [m] and then for [n], return together the
    samples of one request for [m + n] on the same generator, in the same
    order, and leave the generator in the same state; in either file. *)
Theorem consecutive_batches_compose `{RandomSource} :
  forall m n : Z, (1 <= m)%Z -> (1 <= n)%Z -> (m + n <= 100)%Z ->
  forall s : rng,
    batches_compose influent_API.app m n s
    /\ batches_compose influent_api.app m n s.
Proof.
  intros m n Hm Hn Hsum s.
  destruct (batch_route_in_range m) as [HmA Hmb]; [lia|].
  destruct (batch_route_in_range n) as [HnA Hnb]; [lia|].
  destruct (batch_route_in_range (m + n)) as [HsA Hsb]; [lia|].
  unfold batches_compose.
  rewrite HmA, HnA, HsA, Hmb, Hnb, Hsb.
  split; apply respond_batches_compose; lia.
Qed.

Lemma consecutive_batches_compose_witness :
  (1 <= 2)%Z /\ (1 <= 3)%Z /\ (2 + 3 <= 100)%Z
  /\ @batches_compose lcg_source influent_API.app 2 3 7%Z
  /\ @batches_compose lcg_source influent_api.app 2 3 7%Z.
Proof.
  split; [lia|]. split; [lia|]. split; [lia|].
  apply (@consecutive_batches_compose lcg_source 2%Z 3%Z); lia.
Defined.

(** X11.  On the same generator state, [GET /influent] returns the very
    sample that a batch of any [n] of [1, 100] begins with; in either file. *)
Theorem single_is_first_of_batch `{RandomSource} :
  forall n : Z, (1 <= n <= 100)%Z ->
  forall (q : param) (s : rng),
    single_heads_batch influent_API.app q n s
    /\ single_heads_batch influent_api.app q n s.
Proof.
  intros n Hn q s.
  assert (Hhead : forall app,
            app (single_request q) = respond Sample get_single_influent ->
            serves_batch app (Given n) n s ->
            single_heads_batch app q n s).
  { intros app Hsingle (b & Hrun & _ & _ & Hidx).
    destruct (Hidx 0%nat) as (x & Hx & Hgen); [lia|].
    exists x, b. rewrite Hsingle, Hrun. cbn [fst]. split; [|split].
    - unfold respond, get_single_influent.
      change (after_samples 0 s) with s in Hgen. now rewrite Hgen.
    - reflexivity.
    - destruct (influents b); [discriminate | exact Hx]. }
  split; apply Hhead.
  - apply route_single_API.
  - rewrite <- (clamp_id n Hn) at 2. apply serves_batch_API.
  - apply route_single_api.
  - now apply serves_batch_api.
Qed.

Lemma single_is_first_of_batch_witness :
  (1 <= 4 <= 100)%Z
  /\ @single_heads_batch lcg_source influent_API.app Absent 4 7%Z
  /\ @single_heads_batch lcg_source influent_api.app Absent 4 7%Z.
Proof.
  split; [lia|].
  apply (@single_is_first_of_batch lcg_source 4%Z); lia.
Defined.

(** ** The table as a module global: X12 and X13 *)

(** Run the subscript and the draw of one key that the table has. *)
Ltac run_key E :=
  rewrite (bind_ok _ _ _ _ _ (getitem_ok _ _ _ _ E)); cbv beta iota;
  rewrite (bind_ok _ _ _ _ _ (rand_run _ _ _ _)).

Section TableFacts.
Context `{RandomSource}.

(** With the table of the file, this is [generate_influent]. *)
Lemma generate_influent_from_file :
  generate_influent_from INFLUENT_RANGES = generate_influent.
Proof. reflexivity. Qed.





Lemma near_int (low high value : Q) :
  low <= value <= high ->
  low - half_unit 0 <= to_float (rounded 0 value) <= high + half_unit 0.
Proof.
  intros [Hlo Hhi]. cbn [rounded Z.eqb to_float].
  pose proof (round_half_even_near value) as [Ha Hb].
  pose proof half_unit_0 as Hu. split; lra.
Qed.

Lemma near_float (low high value : Q) :
  low <= value <= high ->
  low - half_unit 1 <= to_float (rounded 1 value) <= high + half_unit 1.
Proof.
  intros [Hlo Hhi]. cbn [rounded Z.eqb to_float].
  pose proof (round_ndigits_near value 1) as [Ha Hb]. split; lra.
Qed.
End TableFacts.

Section AdjustedTable.
Context `{RandomSource}.

Lemma well_ordered_lookup (ranges : gmap string (Q * Q)) (key : string) :
  well_ordered ranges = true ->
  In key sampled_keys ->
  exists low high : Q, ranges !! key = Some (low, high) /\ low <= high.
Proof.
  intros Hwo Hin. unfold well_ordered in Hwo.
  rewrite forallb_forall in Hwo. specialize (Hwo key Hin).
  destruct (ranges !! key) as [[low high]|]; [|discriminate].
  exists low, high. split; [reflexivity|]. now apply Qle_bool_iff.
Qed.

Ltac sampled := unfold sampled_keys; cbn [In]; tauto.

Lemma generate_influent_from_in_bounds (ranges : gmap string (Q * Q)) (s : rng) :
  uniform_in_range ->
  well_ordered ranges = true ->
  exists (x : Influent) (s' : rng),
    generate_influent_from ranges s = (Ok x, s') /\ sample_in_bounds_of ranges x.
Proof.
  intros Hu Hwo.
  destruct (well_ordered_lookup ranges "flow_m3_h" Hwo) as (l1 & h1 & E1 & O1); [sampled|].
  destruct (well_ordered_lookup ranges "temp_C" Hwo) as (l2 & h2 & E2 & O2); [sampled|].
  destruct (well_ordered_lookup ranges "pH" Hwo) as (l3 & h3 & E3 & O3); [sampled|].
  destruct (well_ordered_lookup ranges "TSS_in_mgL" Hwo) as (l4 & h4 & E4 & O4); [sampled|].
  destruct (well_ordered_lookup ranges "BOD_in_mgL" Hwo) as (l5 & h5 & E5 & O5); [sampled|].
  destruct (well_ordered_lookup ranges "COD_in_mgL" Hwo) as (l6 & h6 & E6 & O6); [sampled|].
  destruct (well_ordered_lookup ranges "oil_grease_in_mgL" Hwo)
    as (l7 & h7 & E7 & O7); [sampled|].
  destruct (well_ordered_lookup ranges "turbidity_in_NTU" Hwo)
    as (l8 & h8 & E8 & O8); [sampled|].
  unfold generate_influent_from.
  run_key E1. run_key E2. run_key E3. run_key E4.
  run_key E5. run_key E6. run_key E7. run_key E8.
  eexists _, _. split; [reflexivity|].
  unfold sample_in_bounds_of; cbn [flow_m3_h temp_C pH TSS_in_mgL BOD_in_mgL
    COD_in_mgL oil_grease_in_mgL turbidity_in_NTU].
  repeat split.
  - exists l1, h1. split; [exact E1|]. apply near_int, Hu, O1.
  - exists l2, h2. split; [exact E2|]. apply near_float, Hu, O2.
  - exists l3, h3. split; [exact E3|]. apply near_float, Hu, O3.
  - exists l4, h4. split; [exact E4|]. apply near_float, Hu, O4.
  - exists l5, h5. split; [exact E5|]. apply near_float, Hu, O5.
  - exists l6, h6. split; [exact E6|]. apply near_float, Hu, O6.
  - exists l7, h7. split; [exact E7|]. apply near_float, Hu, O7.
  - exists l8, h8. split; [exact E8|]. apply near_float, Hu, O8.
Qed.
End AdjustedTable.

Lemma lowest_in_range : @uniform_in_range lowest_source.
Proof. intros a b s Hab. cbn [uniform lowest_source fst]. split; [lra | exact Hab]. Qed.

(** With bounds that are not whole tenths the rounding can leave the range:
    the lowest draw of the adjusted [pH] range, 6.04, is rounded to 6.0. *)
Example adjusted_pH_leaves_range :
  exists (x : Influent) (s' : unit),
    @generate_influent_from lowest_source adjusted_ranges tt = (Ok x, s')
    /\ pH x == 6.0 /\ ~ 6.04 <= pH x.
Proof.
  eexists _, _. split; [vm_compute; reflexivity|]. cbn [pH].
  split; [reflexivity|].
  intros Hle. vm_compute in Hle. now apply Hle.
Qed.


(** X13.  The tolerance of the ranges does not depend on the numbers of the
    table: for every table that has the eight sampled keys with
    [low <= high], and draws that lie in their intervals, the sampler returns
    a sample whose fields are within the ranges of that table up to half a
    unit of their last decimal. *)
Theorem adjusted_table_within_tolerance `{RandomSource} :
  uniform_in_range ->
  forall ranges : gmap string (Q * Q),
    well_ordered ranges = true ->
    forall s : rng,
    exists (x : Influent) (s' : rng),
      generate_influent_from ranges s = (Ok x, s')
      /\ sample_in_bounds_of ranges x.
Proof.
  intros Hu ranges Hwo s. now apply generate_influent_from_in_bounds.
Qed.

Lemma adjusted_table_within_tolerance_witness :
  @uniform_in_range lcg_source
  /\ well_ordered adjusted_ranges = true
  /\ exists (x : Influent) (s' : Z),
       @generate_influent_from lcg_source adjusted_ranges 42%Z = (Ok x, s')
       /\ sample_in_bounds_of adjusted_ranges x.
Proof.
  split; [exact lcg_in_range|]. split; [reflexivity|].
  apply (@adjusted_table_within_tolerance lcg_source lcg_in_range adjusted_ranges);
    reflexivity.
Defined.
